(** * Interactive translator client (translate.py): model and properties

    A shallow embedding of [main] of
    [Labfiles/06-translator-sdk/Python/translate-text/translate.py].

    The script talks to three things outside itself: the console (stdin and
    stdout), the process environment, and the Azure Translator SDK client.
    They are gathered in a [World] record; the console input is the finite
    list of lines that stdin holds before end of file.  Every call the
    script makes to the outside is recorded, in program order, as an
    [event]; the body of the [try] block is a computation in a small
    writer-and-exception monad whose log is the list of events. *)

From Stdlib Require Import String Ascii List Bool Arith Lia.
From stdpp Require Import base option gmap strings pretty.
Import ListNotations.
Local Open Scope string_scope.
Local Open Scope list_scope.

(** ** Data of the SDK that the script reads *)

(** Value type of [languagesResponse.translation]; the script only uses the
    keys of that dictionary and its length. *)
Record TranslationLanguage := {
  name : string;
  native_name : string;
  dir : string
}.

(** [InputTextItem(text=...)]. *)
Record InputTextItem := { item_text : string }.

(** [translation.detected_language]; the script never passes a source
    language, so the service always reports the detected one. *)
Record DetectedLanguage := {
  language : string;
  score : nat
}.

(** An element of [translation.translations]. *)
Record TranslationText := {
  to : string;
  text : string
}.

(** An element of the list that [client.translate] returns.  It is a
    populated SDK object, hence true in a Python boolean context. *)
Record TranslatedTextItem := {
  detected_language : DetectedLanguage;
  translations : list TranslationText
}.

(** ** Exceptions *)

(** [EOFError] is what [input] raises at end of file; every other
    exception of the session comes from the SDK and is known by the text
    that [str] gives for it. *)
Inductive exn :=
  | EOFError
  | SdkError (msg : string).

Definition str (e : exn) : string :=
  match e with
  | EOFError => "EOF when reading a line"
  | SdkError msg => msg
  end.

Inductive outcome (A : Type) :=
  | Ok (a : A)
  | Raise (e : exn).
Arguments Ok {A} a.
Arguments Raise {A} e.

(** ** The outside world *)

Record World := {
  (** [os.getenv] after [load_dotenv()] *)
  getenv : string -> option string;
  (** [AzureKeyCredential(key)] followed by
      [TextTranslationClient(credential=..., region=...)] *)
  TextTranslationClient : option string -> option string -> outcome unit;
  (** [client.get_supported_languages(scope=...)], the [translation]
      attribute of its answer *)
  get_supported_languages : string -> outcome (gmap string TranslationLanguage);
  (** [client.translate(body=..., to_language=...)]; the first argument
      counts the translate calls made earlier in the session *)
  translate : nat -> list InputTextItem -> list string ->
              outcome (list TranslatedTextItem)
}.

(** ** Events *)

Inductive event :=
  | EvClient (key region : option string)
  | EvLanguages (scope : string)
  | EvTranslate (body : list InputTextItem) (to_language : list string)
  | EvInput (prompt : string) (line : option string)
  | EvPrint (line : string).

(** ** The monad of the [try] body *)

Definition M (A : Type) : Type := (list event * outcome A)%type.

Definition ret {A} (a : A) : M A := ([], Ok a).

Definition raise {A} (e : exn) : M A := ([], Raise e).

Definition bind {A B} (m : M A) (k : A -> M B) : M B :=
  match m with
  | (t, Ok a) => let (t', r) := k a in (t ++ t', r)
  | (t, Raise e) => (t, Raise e)
  end.

Definition tell (ev : event) : M unit := ([ev], Ok tt).

Definition lift {A} (o : outcome A) : M A := ([], o).

Declare Scope py_scope.
Delimit Scope py_scope with py.
Notation "x <- m ;; k" := (bind m (fun x => k))
  (at level 100, m at next level, right associativity) : py_scope.
Notation "m ;; k" := (bind m (fun _ => k))
  (at level 100, right associativity) : py_scope.
Local Open Scope py_scope.

Definition trace {A} (m : M A) : list event := fst m.
Definition result {A} (m : M A) : outcome A := snd m.

(** [print(s)] *)
Definition print (s : string) : M unit := tell (EvPrint s).

(** ** Strings *)

(** [c.lower()] on one character.  Strings are byte strings (UTF-8); only
    the ASCII capitals change.  No character outside ASCII lowers to one of
    the letters of the sentinel, so this decides the comparison with
    ["quit"] exactly as Python's [str.lower] does. *)
Definition lower_ascii (c : ascii) : ascii :=
  let n := nat_of_ascii c in
  if (65 <=? n)%nat && (n <=? 90)%nat then ascii_of_nat (n + 32) else c.

Fixpoint lower (s : string) : string :=
  match s with
  | EmptyString => EmptyString
  | String c s' => String (lower_ascii c) (lower s')
  end.

(** ** Console texts *)

Definition count_line (n : nat) : string :=
  pretty n ++ " languages supported.".

Definition pointer_line : string :=
  "(See https://learn.microsoft.com/azure/ai-services/translator/language-support#translation)".

Definition instruction_line : string :=
  "Enter a target language code for translation (for example, 'en'):".

Definition rejection (code : string) : string :=
  code ++ " is not a supported language.".

Definition text_prompt : string :=
  "Enter text to translate (or 'quit' to exit): ".

Definition result_line (inputText source target translated : string) : string :=
  "'" ++ inputText ++ "' was translated from " ++ source ++ " to " ++ target
      ++ " as '" ++ translated ++ "'.".

(** The three lines printed at startup, for a catalog of [n] languages. *)
Definition banner_lines (n : nat) : list string :=
  [count_line n; pointer_line; instruction_line].

(** ** Variables of [main] that the two loops read and write *)

Record Vars := {
  targetLanguage : string;
  supportedLanguage : bool;
  inputText : string
}.

Definition set_targetLanguage (v : Vars) (s : string) : Vars :=
  {| targetLanguage := s;
     supportedLanguage := supportedLanguage v;
     inputText := inputText v |}.

Definition set_supportedLanguage (v : Vars) (b : bool) : Vars :=
  {| targetLanguage := targetLanguage v;
     supportedLanguage := b;
     inputText := inputText v |}.

Definition set_inputText (v : Vars) (s : string) : Vars :=
  {| targetLanguage := targetLanguage v;
     supportedLanguage := supportedLanguage v;
     inputText := s |}.

(** ** Step 3: the language-selection loop (lines 58-66) *)

Fixpoint select_loop (catalog : gmap string TranslationLanguage)
    (v : Vars) (stdin : list string) {struct stdin}
    : M (Vars * list string) :=
  if supportedLanguage v then ret (v, stdin)
  else
    match stdin with
    | [] => tell (EvInput "" None) ;; raise EOFError
    | line :: rest =>
        tell (EvInput "" (Some line)) ;;
        let v := set_targetLanguage v line in
        match catalog !! line with
        | Some _ => select_loop catalog (set_supportedLanguage v true) rest
        | None => print (rejection line) ;; select_loop catalog v rest
        end
    end.

(** The variables at the end of each iteration of the selection loop, in
    order.  Line 59 assigns [targetLanguage] in every iteration, before the
    lookup of line 62, so the values of [targetLanguage] in this list are
    the values written to it by the loop. *)
Fixpoint select_states (catalog : gmap string TranslationLanguage)
    (v : Vars) (stdin : list string) {struct stdin} : list Vars :=
  if supportedLanguage v then []
  else
    match stdin with
    | [] => []
    | line :: rest =>
        let v := set_targetLanguage v line in
        match catalog !! line with
        | Some _ =>
            set_supportedLanguage v true
              :: select_states catalog (set_supportedLanguage v true) rest
        | None => v :: select_states catalog v rest
        end
    end.

(** ** Step 4: the translation loop (lines 74-102) *)

(** The [for] loop of lines 100-102. *)
Fixpoint display_translations (inputText : string) (sourceLanguage : DetectedLanguage)
    (ts : list TranslationText) : M unit :=
  match ts with
  | [] => ret tt
  | translated_text :: ts' =>
      print (result_line inputText (language sourceLanguage)
                         (to translated_text) (text translated_text)) ;;
      display_translations inputText sourceLanguage ts'
  end.

(** Lines 92-102: take the first result item, if any, and show it. *)
Definition display (inputText : string) (translationResponse : list TranslatedTextItem)
    : M unit :=
  match translationResponse with
  | [] => ret tt
  | translation :: _ =>
      display_translations inputText (detected_language translation)
                           (translations translation)
  end.

(** The lines that [display] shows for a response. *)
Definition shown (inputText : string) (resp : list TranslatedTextItem) : list string :=
  match resp with
  | [] => []
  | translation :: _ =>
      map (fun t => result_line inputText (language (detected_language translation))
                                (to t) (text t))
          (translations translation)
  end.

Fixpoint translation_loop (w : World) (v : Vars) (calls : nat)
    (stdin : list string) {struct stdin} : M (Vars * nat * list string) :=
  if String.eqb (lower (inputText v)) "quit" then ret (v, calls, stdin)
  else
    match stdin with
    | [] => tell (EvInput text_prompt None) ;; raise EOFError
    | line :: rest =>
        tell (EvInput text_prompt (Some line)) ;;
        let v := set_inputText v line in
        if String.eqb (inputText v) "quit" then translation_loop w v calls rest
        else
          let input_text_elements := [ {| item_text := inputText v |} ] in
          tell (EvTranslate input_text_elements [targetLanguage v]) ;;
          translationResponse <-
            lift (translate w calls input_text_elements [targetLanguage v]) ;;
          display (inputText v) translationResponse ;;
          translation_loop w v (S calls) rest
    end.

(** ** The session (the [try] body) and [main] *)

Definition initial_vars : Vars :=
  {| targetLanguage := "xx"; supportedLanguage := false; inputText := "" |}.

(** The two loops in sequence, as in the [try] body after the banner. *)
Definition loops (w : World) (catalog : gmap string TranslationLanguage)
    (stdin : list string) : M (Vars * nat * list string) :=
  sel <- select_loop catalog initial_vars stdin ;;
  translation_loop w (set_inputText (fst sel) "") 0 (snd sel).

Definition banner (catalog : gmap string TranslationLanguage) : M unit :=
  print (count_line (size catalog)) ;;
  print pointer_line ;;
  print instruction_line.

Definition session (w : World) (stdin : list string) : M (Vars * nat * list string) :=
  let translatorRegion := getenv w "TRANSLATOR_REGION" in
  let translatorKey := getenv w "TRANSLATOR_KEY" in
  tell (EvClient translatorKey translatorRegion) ;;
  lift (TextTranslationClient w translatorKey translatorRegion) ;;
  tell (EvLanguages "translation") ;;
  catalog <- lift (get_supported_languages w "translation") ;;
  banner catalog ;;
  loops w catalog stdin.

(** What [main] does before it asks for the supported languages. *)
Definition boot (w : World) : list event :=
  [EvClient (getenv w "TRANSLATOR_KEY") (getenv w "TRANSLATOR_REGION")].

(** The [except Exception as ex: print(ex)] boundary. *)
Definition boundary {A} (o : outcome A) : list event :=
  match o with
  | Ok _ => []
  | Raise ex => [EvPrint (str ex)]
  end.

Definition main (w : World) (stdin : list string) : list event :=
  trace (session w stdin) ++ boundary (result (session w stdin)).

(** The lines written to stdout by [print], in order. *)
Fixpoint printed (t : list event) : list string :=
  match t with
  | [] => []
  | EvPrint s :: t' => s :: printed t'
  | _ :: t' => printed t'
  end.

(** The translate calls of a trace, in order. *)
Fixpoint translate_calls (t : list event) : list (list InputTextItem * list string) :=
  match t with
  | [] => []
  | EvTranslate body tl :: t' => (body, tl) :: translate_calls t'
  | _ :: t' => translate_calls t'
  end.

(** ** A sample world *)

Definition sample_catalog : gmap string TranslationLanguage :=
  <["en" := {| name := "English"; native_name := "English"; dir := "ltr" |}]>
  (<["fr" := {| name := "French"; native_name := "Français"; dir := "ltr" |}]> ∅).

Definition sample_translate (calls : nat) (body : list InputTextItem)
    (to_language : list string) : outcome (list TranslatedTextItem) :=
  match body, to_language with
  | [ {| item_text := "Hello" |} ], ["fr"] =>
      Ok [ {| detected_language := {| language := "en"; score := 1 |};
              translations := [ {| to := "fr"; text := "Bonjour" |} ] |} ]
  | [ {| item_text := "boom" |} ], _ => Raise (SdkError "(401000) The request is not authorized.")
  | _, _ => Ok []
  end.

Definition sample_world : World :=
  {| getenv := fun k => Some k;
     TextTranslationClient := fun _ _ => Ok tt;
     get_supported_languages := fun _ => Ok sample_catalog;
     translate := sample_translate |}.


(** ** Failures of remote calls *)

(** The exception, if any, with which the world answers the remote call
    recorded by an event; [calls] counts the translate calls made before. *)
Definition remote_failure (w : World) (calls : nat) (ev : event) : option exn :=
  match ev with
  | EvClient key region =>
      match TextTranslationClient w key region with
      | Raise e => Some e
      | Ok _ => None
      end
  | EvLanguages scope =>
      match get_supported_languages w scope with
      | Raise e => Some e
      | Ok _ => None
      end
  | EvTranslate body to_language =>
      match translate w calls body to_language with
      | Raise e => Some e
      | Ok _ => None
      end
  | EvInput _ _ | EvPrint _ => None
  end.

Definition count_call (calls : nat) (ev : event) : nat :=
  match ev with
  | EvTranslate _ _ => S calls
  | _ => calls
  end.

(** A trace in which every failing remote call is followed by the print
    of its exception and by nothing else. *)
Fixpoint terminal_failures (w : World) (calls : nat) (t : list event) : Prop :=
  match t with
  | [] => True
  | ev :: t' =>
      match remote_failure w calls ev with
      | Some e => t' = [EvPrint (str e)]
      | None => terminal_failures w (count_call calls ev) t'
      end
  end.

Definition console (ev : event) : Prop :=
  match ev with
  | EvInput _ _ | EvPrint _ => True
  | _ => False
  end.

(** A state of the variables with French selected. *)
Definition fr_vars : Vars :=
  {| targetLanguage := "fr"; supportedLanguage := true; inputText := "" |}.

(** ** Reading more from traces *)

(** The lines that [input] returned, in order. *)
Fixpoint lines_read (t : list event) : list string :=
  match t with
  | [] => []
  | EvInput _ (Some l) :: t' => l :: lines_read t'
  | _ :: t' => lines_read t'
  end.

(** What the selection loop does with a run of unsupported codes: each is
    read and answered with its rejection notice. *)
Definition rejected_trace (codes : list string) : list event :=
  flat_map (fun c => [EvInput "" (Some c); EvPrint (rejection c)]) codes.

(** The part of an answer of [client.translate] that lines 92-102 look at:
    the exception, or the first item of the list. *)
Definition head_only (o : outcome (list TranslatedTextItem))
    : outcome (list TranslatedTextItem) :=
  match o with
  | Ok (translation :: _) => Ok [translation]
  | Ok [] => Ok []
  | Raise e => Raise e
  end.

(** The sample world with a service that answers every text twice. *)
Definition doubling_world : World :=
  {| getenv := getenv sample_world;
     TextTranslationClient := TextTranslationClient sample_world;
     get_supported_languages := get_supported_languages sample_world;
     translate := fun calls body to_language =>
       match sample_translate calls body to_language with
       | Ok (translation :: others) => Ok (translation :: translation :: others)
       | o => o
       end |}.

(** The values written to [targetLanguage] during a session, in order:
    the placeholder of line 54, then the writes of line 59. *)
Definition target_writes (catalog : gmap string TranslationLanguage)
    (stdin : list string) : list string :=
  targetLanguage initial_vars
    :: map targetLanguage (select_states catalog initial_vars stdin).

(** A world whose service answers each text with the text itself, once per
    requested target. *)
Definition echo_translate (calls : nat) (body : list InputTextItem)
    (to_language : list string) : outcome (list TranslatedTextItem) :=
  Ok (map (fun item =>
             {| detected_language := {| language := "en"; score := 1 |};
                translations :=
                  map (fun code => {| to := code; text := item_text item |})
                      to_language |})
          body).

Definition echo_world : World :=
  {| getenv := getenv sample_world;
     TextTranslationClient := TextTranslationClient sample_world;
     get_supported_languages := get_supported_languages sample_world;
     translate := echo_translate |}.

(** * Properties *)

(** ** The monad *)

Lemma bind_ok {A B} (m : M A) (k : A -> M B) a :
  result m = Ok a ->
  trace (bind m k) = trace m ++ trace (k a) /\ result (bind m k) = result (k a).
Proof.
  destruct m as [t [a'|e]]; simpl; intros H; [|discriminate].
  injection H as ->. unfold bind. destruct (k a) as [t' r]. auto.
Qed.

Lemma bind_raise {A B} (m : M A) (k : A -> M B) e :
  result m = Raise e ->
  trace (bind m k) = trace m /\ result (bind m k) = Raise e.
Proof.
  destruct m as [t [a'|e']]; simpl; intros H; [discriminate|].
  injection H as ->. auto.
Qed.

Lemma bind_tell {B} ev (k : unit -> M B) :
  bind (tell ev) k = (ev :: trace (k tt), result (k tt)).
Proof. unfold bind, tell. destruct (k tt); reflexivity. Qed.

Lemma bind_lift_ok {A B} (o : outcome A) (k : A -> M B) a :
  o = Ok a -> bind (lift o) k = k a.
Proof. intros ->. unfold bind, lift. destruct (k a); reflexivity. Qed.

Lemma bind_lift_raise {A B} (o : outcome A) (k : A -> M B) e :
  o = Raise e -> bind (lift o) k = ([], Raise e).
Proof. intros ->. reflexivity. Qed.

Lemma M_eta {A} (m : M A) : m = (trace m, result m).
Proof. destruct m; reflexivity. Qed.

(** ** Strings *)

Lemma append_cons c (s t : string) : (String c s ++ t = String c (s ++ t))%string.
Proof. reflexivity. Qed.

Lemma length_append (s t : string) :
  String.length (s ++ t) = String.length s + String.length t.
Proof.
  induction s as [|c s IH]; [reflexivity|].
  rewrite append_cons. simpl. now rewrite IH.
Qed.

(** Two texts that are equal and end in tails of the same length have the
    same tail. *)
Lemma append_tail_inj (s1 s2 t1 t2 : string) :
  String.length t1 = String.length t2 -> (s1 ++ t1 = s2 ++ t2)%string -> t1 = t2.
Proof.
  intros Hlen Heq.
  assert (Hl : String.length s1 = String.length s2).
  { apply (f_equal String.length) in Heq. rewrite !length_append in Heq. lia. }
  clear Hlen. revert s2 Heq Hl.
  induction s1 as [|c s1 IH]; intros [|d s2] Heq Hl; try discriminate Hl.
  - exact Heq.
  - injection Hl as Hl. injection Heq as _ Heq. eauto.
Qed.

Lemma append_assoc (s t u : string) : ((s ++ t) ++ u = s ++ (t ++ u))%string.
Proof.
  induction s as [|c s IH]; [reflexivity|].
  rewrite !append_cons. now rewrite IH.
Qed.

(** A result line ends with a quote and a full stop. *)
Lemma result_line_tail a b c d :
  exists p, result_line a b c d = (p ++ "'.")%string.
Proof.
  exists ("'" ++ a ++ "' was translated from " ++ b ++ " to " ++ c ++ " as '" ++ d)%string.
  unfold result_line. now rewrite !append_assoc.
Qed.

Lemma pointer_line_tail : exists p, pointer_line = (p ++ "n)")%string.
Proof.
  exists "(See https://learn.microsoft.com/azure/ai-services/translator/language-support#translatio".
  reflexivity.
Qed.

Lemma instruction_line_tail : exists p, instruction_line = (p ++ "):")%string.
Proof.
  exists "Enter a target language code for translation (for example, 'en'".
  reflexivity.
Qed.

Lemma count_line_tail n : exists p, count_line n = (p ++ "d.")%string.
Proof.
  exists (pretty n ++ " languages supporte")%string.
  unfold count_line. now rewrite append_assoc.
Qed.

Lemma rejection_tail c : exists p, rejection c = (p ++ "e.")%string.
Proof.
  exists (c ++ " is not a supported languag")%string.
  unfold rejection. now rewrite append_assoc.
Qed.

Lemma banner_line_tail n l :
  In l (banner_lines n) ->
  exists p t, l = (p ++ t)%string /\ (t = "d." \/ t = "n)" \/ t = "):").
Proof.
  intros [<- | [<- | [<- | [] ] ] ].
  - destruct (count_line_tail n) as [p Hp]. exists p, "d."; auto.
  - destruct pointer_line_tail as [p Hp]. exists p, "n)"; auto.
  - destruct instruction_line_tail as [p Hp]. exists p, "):"; auto.
Qed.

(** No rejection notice and no result line is one of the banner lines. *)
Lemma rejection_not_banner n c : ~ In (rejection c) (banner_lines n).
Proof.
  intros H. apply banner_line_tail in H as (p & t & Heq & Ht).
  destruct (rejection_tail c) as [q Hq]. rewrite Hq in Heq.
  destruct Ht as [-> | [-> | ->] ];
    apply append_tail_inj in Heq; (reflexivity || discriminate).
Qed.

Lemma result_line_not_banner n a b c d : ~ In (result_line a b c d) (banner_lines n).
Proof.
  intros H. apply banner_line_tail in H as (p & t & Heq & Ht).
  destruct (result_line_tail a b c d) as [q Hq]. rewrite Hq in Heq.
  destruct Ht as [-> | [-> | ->] ];
    apply append_tail_inj in Heq; (reflexivity || discriminate).
Qed.

(** ** Unfolding the language-selection loop *)

Section SelectLoop.
Variable catalog : gmap string TranslationLanguage.

Lemma select_loop_unfold v stdin :
  select_loop catalog v stdin =
    if supportedLanguage v then ret (v, stdin)
    else
      match stdin with
      | [] => tell (EvInput "" None) ;; raise EOFError
      | line :: rest =>
          tell (EvInput "" (Some line)) ;;
          match catalog !! line with
          | Some _ =>
              select_loop catalog
                (set_supportedLanguage (set_targetLanguage v line) true) rest
          | None =>
              print (rejection line) ;;
              select_loop catalog (set_targetLanguage v line) rest
          end
      end.
Proof. destruct stdin; reflexivity. Qed.

Lemma select_loop_done v stdin :
  supportedLanguage v = true -> select_loop catalog v stdin = ret (v, stdin).
Proof. intros H. rewrite select_loop_unfold. now rewrite H. Qed.

Lemma select_loop_eof v :
  supportedLanguage v = false ->
  select_loop catalog v [] = ([EvInput "" None], Raise EOFError).
Proof. intros H. rewrite select_loop_unfold. now rewrite H. Qed.

Lemma select_loop_accept v c rest :
  supportedLanguage v = false -> is_Some (catalog !! c) ->
  select_loop catalog v (c :: rest) =
    ([EvInput "" (Some c)],
     Ok (set_supportedLanguage (set_targetLanguage v c) true, rest)).
Proof.
  intros H [x Hx]. rewrite select_loop_unfold, H, Hx, bind_tell.
  now rewrite select_loop_done.
Qed.

Lemma select_loop_reject v c rest :
  supportedLanguage v = false -> catalog !! c = None ->
  select_loop catalog v (c :: rest) =
    (EvInput "" (Some c) :: EvPrint (rejection c)
       :: trace (select_loop catalog (set_targetLanguage v c) rest),
     result (select_loop catalog (set_targetLanguage v c) rest)).
Proof.
  intros H Hc. rewrite select_loop_unfold, H, Hc, bind_tell. unfold print.
  now rewrite bind_tell.
Qed.

(** Whatever the loop does, its first action is to read a line. *)
Lemma select_loop_reads_first v stdin :
  supportedLanguage v = false ->
  exists r, head (trace (select_loop catalog v stdin)) = Some (EvInput "" r).
Proof.
  intros H. destruct stdin as [|c rest].
  - rewrite select_loop_eof by assumption. eauto.
  - destruct (catalog !! c) as [x|] eqn:Hc.
    + rewrite select_loop_accept by eauto. eauto.
    + rewrite select_loop_reject by assumption. eauto.
Qed.

(** When the loop returns, it has consumed a run of unsupported codes
    followed by one supported code, which is the value of
    [targetLanguage]; only [targetLanguage] and the flag have changed. *)
Lemma select_loop_returns v stdin v' rest :
  supportedLanguage v = false ->
  result (select_loop catalog v stdin) = Ok (v', rest) ->
  exists rejected,
    stdin = rejected ++ targetLanguage v' :: rest
    /\ Forall (fun c => catalog !! c = None) rejected
    /\ is_Some (catalog !! targetLanguage v')
    /\ supportedLanguage v' = true
    /\ inputText v' = inputText v.
Proof.
  revert v. induction stdin as [|c stdin IH]; intros v Hv Hres.
  - rewrite select_loop_eof in Hres by assumption. discriminate.
  - destruct (catalog !! c) as [x|] eqn:Hc.
    + rewrite select_loop_accept in Hres by eauto.
      injection Hres as <- <-. exists []. simpl. eauto 10.
    + rewrite select_loop_reject in Hres by assumption. simpl in Hres.
      apply IH in Hres as (rej & -> & Hrej & Hin & Hflag & Hit); [|assumption].
      exists (c :: rej). simpl. auto 10.
Qed.

(** Every line the selection loop prints is a rejection notice. *)
Lemma select_loop_prints v stdin :
  Forall (fun l => exists c, l = rejection c)
         (printed (trace (select_loop catalog v stdin))).
Proof.
  revert v. induction stdin as [|c stdin IH]; intros v;
    destruct (supportedLanguage v) eqn:Hv.
  - rewrite select_loop_done by assumption. constructor.
  - rewrite select_loop_eof by assumption. constructor.
  - rewrite select_loop_done by assumption. constructor.
  - destruct (catalog !! c) as [x|] eqn:Hc.
    + rewrite select_loop_accept by eauto. constructor.
    + rewrite select_loop_reject by assumption. simpl.
      constructor; [eauto | apply IH].
Qed.

(** The selection loop makes no translate call. *)
Lemma select_loop_no_translate v stdin :
  translate_calls (trace (select_loop catalog v stdin)) = [].
Proof.
  revert v. induction stdin as [|c stdin IH]; intros v;
    destruct (supportedLanguage v) eqn:Hv.
  - now rewrite select_loop_done.
  - now rewrite select_loop_eof.
  - now rewrite select_loop_done.
  - destruct (catalog !! c) as [x|] eqn:Hc.
    + rewrite select_loop_accept by eauto. reflexivity.
    + rewrite select_loop_reject by assumption. simpl. apply IH.
Qed.
End SelectLoop.

(** ** Unfolding the translation loop *)

Lemma display_translations_spec inputText src ts :
  display_translations inputText src ts =
    (map (fun t => EvPrint (result_line inputText (language src) (to t) (text t))) ts,
     Ok tt).
Proof.
  induction ts as [|t ts IH]; [reflexivity|].
  change (display_translations inputText src (t :: ts))
    with (print (result_line inputText (language src) (to t) (text t)) ;;
          display_translations inputText src ts).
  unfold print. now rewrite bind_tell, IH.
Qed.

Lemma display_spec inputText resp :
  display inputText resp = (map EvPrint (shown inputText resp), Ok tt).
Proof.
  destruct resp as [|translation others]; [reflexivity|].
  simpl. rewrite display_translations_spec. now rewrite map_map.
Qed.

Section TranslationLoop.
Variable w : World.

Lemma translation_loop_unfold v calls stdin :
  translation_loop w v calls stdin =
    if String.eqb (lower (inputText v)) "quit" then ret (v, calls, stdin)
    else
      match stdin with
      | [] => tell (EvInput text_prompt None) ;; raise EOFError
      | line :: rest =>
          tell (EvInput text_prompt (Some line)) ;;
          if String.eqb line "quit"
          then translation_loop w (set_inputText v line) calls rest
          else
            tell (EvTranslate [ {| item_text := line |} ] [targetLanguage v]) ;;
            translationResponse <-
              lift (translate w calls [ {| item_text := line |} ] [targetLanguage v]) ;;
            display line translationResponse ;;
            translation_loop w (set_inputText v line) (S calls) rest
      end.
Proof. destruct stdin; reflexivity. Qed.

Lemma translation_loop_exit v calls stdin :
  lower (inputText v) = "quit" ->
  translation_loop w v calls stdin = ret (v, calls, stdin).
Proof.
  intros H. rewrite translation_loop_unfold, H. reflexivity.
Qed.

Lemma translation_loop_eof v calls :
  lower (inputText v) <> "quit" ->
  translation_loop w v calls [] = ([EvInput text_prompt None], Raise EOFError).
Proof. intros H%String.eqb_neq. rewrite translation_loop_unfold. now rewrite H. Qed.

Lemma translation_loop_quit v calls rest :
  lower (inputText v) <> "quit" ->
  translation_loop w v calls ("quit" :: rest) =
    ([EvInput text_prompt (Some "quit")], Ok (set_inputText v "quit", calls, rest)).
Proof.
  intros H%String.eqb_neq. rewrite translation_loop_unfold, H, bind_tell.
  now rewrite translation_loop_exit.
Qed.

Lemma translation_loop_raise v calls line rest e :
  lower (inputText v) <> "quit" -> line <> "quit" ->
  translate w calls [ {| item_text := line |} ] [targetLanguage v] = Raise e ->
  translation_loop w v calls (line :: rest) =
    ([EvInput text_prompt (Some line);
      EvTranslate [ {| item_text := line |} ] [targetLanguage v]],
     Raise e).
Proof.
  intros H%String.eqb_neq Hl%String.eqb_neq Ht.
  rewrite translation_loop_unfold, H, Hl, !bind_tell.
  now rewrite (bind_lift_raise _ _ e Ht).
Qed.

Lemma translation_loop_ok v calls line rest resp :
  lower (inputText v) <> "quit" -> line <> "quit" ->
  translate w calls [ {| item_text := line |} ] [targetLanguage v] = Ok resp ->
  translation_loop w v calls (line :: rest) =
    (EvInput text_prompt (Some line)
       :: EvTranslate [ {| item_text := line |} ] [targetLanguage v]
       :: map EvPrint (shown line resp)
       ++ trace (translation_loop w (set_inputText v line) (S calls) rest),
     result (translation_loop w (set_inputText v line) (S calls) rest)).
Proof.
  intros H%String.eqb_neq Hl%String.eqb_neq Ht.
  rewrite translation_loop_unfold, H, Hl, !bind_tell.
  rewrite (bind_lift_ok _ _ resp Ht), display_spec.
  unfold bind.
  now destruct (translation_loop w (set_inputText v line) (S calls) rest).
Qed.
End TranslationLoop.

(** ** Reading traces *)

Lemma printed_app t1 t2 : printed (t1 ++ t2) = printed t1 ++ printed t2.
Proof.
  induction t1 as [|[] t1 IH]; simpl; try assumption; [reflexivity | now rewrite IH].
Qed.

Lemma printed_prints ls : printed (map EvPrint ls) = ls.
Proof. induction ls as [|l ls IH]; simpl; [reflexivity | now rewrite IH]. Qed.

Lemma translate_calls_app t1 t2 :
  translate_calls (t1 ++ t2) = translate_calls t1 ++ translate_calls t2.
Proof.
  induction t1 as [|[] t1 IH]; simpl; try assumption; [reflexivity | now rewrite IH].
Qed.

Lemma translate_calls_prints ls : translate_calls (map EvPrint ls) = [].
Proof. induction ls as [|l ls IH]; simpl; [reflexivity | assumption]. Qed.

Lemma printed_In l t : In (EvPrint l) t -> In l (printed t).
Proof.
  induction t as [|ev t IH]; simpl; [tauto|].
  intros [-> | H]; [now left|].
  destruct ev; simpl; auto.
Qed.

(** ** Induction over the iterations of the translation loop *)

Section TranslationLoopInd.
Variable w : World.
Variable P : Vars -> nat -> list string -> M (Vars * nat * list string) -> Prop.

Hypothesis P_exit : forall v calls stdin,
  lower (inputText v) = "quit" -> P v calls stdin (ret (v, calls, stdin)).
Hypothesis P_eof : forall v calls,
  lower (inputText v) <> "quit" ->
  P v calls [] ([EvInput text_prompt None], Raise EOFError).
Hypothesis P_quit : forall v calls rest,
  lower (inputText v) <> "quit" ->
  P v calls ("quit" :: rest)
    ([EvInput text_prompt (Some "quit")], Ok (set_inputText v "quit", calls, rest)).
Hypothesis P_raise : forall v calls line rest e,
  lower (inputText v) <> "quit" -> line <> "quit" ->
  translate w calls [ {| item_text := line |} ] [targetLanguage v] = Raise e ->
  P v calls (line :: rest)
    ([EvInput text_prompt (Some line);
      EvTranslate [ {| item_text := line |} ] [targetLanguage v]], Raise e).
Hypothesis P_ok : forall v calls line rest resp,
  lower (inputText v) <> "quit" -> line <> "quit" ->
  translate w calls [ {| item_text := line |} ] [targetLanguage v] = Ok resp ->
  P (set_inputText v line) (S calls) rest
    (translation_loop w (set_inputText v line) (S calls) rest) ->
  P v calls (line :: rest)
    (EvInput text_prompt (Some line)
       :: EvTranslate [ {| item_text := line |} ] [targetLanguage v]
       :: map EvPrint (shown line resp)
       ++ trace (translation_loop w (set_inputText v line) (S calls) rest),
     result (translation_loop w (set_inputText v line) (S calls) rest)).

Lemma translation_loop_cases v calls stdin :
  P v calls stdin (translation_loop w v calls stdin).
Proof.
  revert v calls. induction stdin as [|line rest IH]; intros v calls;
    destruct (String.eqb_spec (lower (inputText v)) "quit") as [Hq|Hq].
  - rewrite translation_loop_exit by assumption. auto.
  - rewrite translation_loop_eof by assumption. auto.
  - rewrite translation_loop_exit by assumption. auto.
  - destruct (String.eqb_spec line "quit") as [->|Hl].
    + rewrite translation_loop_quit by assumption. auto.
    + destruct (translate w calls [ {| item_text := line |} ] [targetLanguage v])
        as [resp|e] eqn:Ht.
      * rewrite (translation_loop_ok w v calls line rest resp) by assumption.
        apply P_ok; auto.
      * rewrite (translation_loop_raise w v calls line rest e) by assumption.
        auto.
Qed.
End TranslationLoopInd.

(** The translation loop never assigns [targetLanguage]. *)
Lemma translation_loop_keeps_target w v calls stdin v' calls' rest :
  result (translation_loop w v calls stdin) = Ok (v', calls', rest) ->
  targetLanguage v' = targetLanguage v.
Proof.
  revert v' calls' rest.
  apply (translation_loop_cases w (fun v calls stdin m => forall v' calls' rest,
           result m = Ok (v', calls', rest) -> targetLanguage v' = targetLanguage v)).
  - intros v0 c0 s0 _ v' calls' rest [= <- _ _]. reflexivity.
  - intros; discriminate.
  - intros v0 c0 r0 _ v' calls' rest [= <- _ _]. reflexivity.
  - intros; discriminate.
  - intros v0 c0 line r0 resp _ _ _ IH v' calls' rest Hres.
    simpl in Hres. now apply IH in Hres.
Qed.

(** Every translate call of the loop sends one text item and asks for the
    one target language held in [targetLanguage]. *)
Lemma translation_loop_calls w v calls stdin :
  Forall (fun call => exists line,
            call = ([ {| item_text := line |} ], [targetLanguage v]))
         (translate_calls (trace (translation_loop w v calls stdin))).
Proof.
  apply (translation_loop_cases w (fun v calls stdin m =>
           Forall (fun call => exists line,
                     call = ([ {| item_text := line |} ], [targetLanguage v]))
                  (translate_calls (trace m)))).
  - constructor.
  - constructor.
  - constructor.
  - intros v0 c0 line r0 e _ _ _. simpl. constructor; eauto.
  - intros v0 c0 line r0 resp _ _ _ IH. simpl.
    rewrite translate_calls_app, translate_calls_prints. simpl.
    constructor; eauto.
Qed.

(** Every line the translation loop prints is a result line. *)
Lemma shown_result_lines line resp :
  Forall (fun l => exists a b c d, l = result_line a b c d) (shown line resp).
Proof.
  destruct resp as [|translation others]; simpl; [constructor|].
  induction (translations translation) as [|t ts IH]; simpl; constructor; eauto.
Qed.

Lemma translation_loop_prints w v calls stdin :
  Forall (fun l => exists a b c d, l = result_line a b c d)
         (printed (trace (translation_loop w v calls stdin))).
Proof.
  apply (translation_loop_cases w (fun v calls stdin m =>
           Forall (fun l => exists a b c d, l = result_line a b c d)
                  (printed (trace m)))).
  - constructor.
  - constructor.
  - constructor.
  - constructor.
  - intros v0 c0 line r0 resp _ _ _ IH. simpl.
    rewrite printed_app, printed_prints. apply Forall_app. split; [|exact IH].
    apply shown_result_lines.
Qed.

(** ** The session *)

Section Session.
Variable w : World.
Variable stdin : list string.

Let client := TextTranslationClient w (getenv w "TRANSLATOR_KEY")
                                    (getenv w "TRANSLATOR_REGION").

Lemma session_client_raises e :
  client = Raise e -> session w stdin = (boot w, Raise e).
Proof.
  intros H. unfold session. rewrite bind_tell.
  now rewrite (bind_lift_raise _ _ e H).
Qed.

Lemma session_languages_raise e :
  client = Ok tt -> get_supported_languages w "translation" = Raise e ->
  session w stdin = (boot w ++ [EvLanguages "translation"], Raise e).
Proof.
  intros H Hl. unfold session. rewrite bind_tell.
  rewrite (bind_lift_ok _ _ tt H), bind_tell.
  now rewrite (bind_lift_raise _ _ e Hl).
Qed.

Lemma session_ok catalog :
  client = Ok tt -> get_supported_languages w "translation" = Ok catalog ->
  session w stdin =
    (boot w ++ EvLanguages "translation"
       :: map EvPrint (banner_lines (size catalog))
       ++ trace (loops w catalog stdin),
     result (loops w catalog stdin)).
Proof.
  intros H Hl. unfold session. rewrite bind_tell.
  rewrite (bind_lift_ok _ _ tt H), bind_tell.
  rewrite (bind_lift_ok _ _ catalog Hl).
  unfold banner, print. rewrite !bind_tell. fold (loops w catalog stdin).
  unfold bind. simpl. now destruct (loops w catalog stdin).
Qed.

Lemma loops_select_raises catalog e :
  result (select_loop catalog initial_vars stdin) = Raise e ->
  loops w catalog stdin = (trace (select_loop catalog initial_vars stdin), Raise e).
Proof.
  intros H. unfold loops.
  destruct (bind_raise (select_loop catalog initial_vars stdin)
    (fun sel => translation_loop w (set_inputText (fst sel) "") 0 (snd sel)) e H)
    as [Ht Hr].
  rewrite (M_eta (bind _ _)). now rewrite Ht, Hr.
Qed.

Lemma loops_select_returns catalog v rest :
  result (select_loop catalog initial_vars stdin) = Ok (v, rest) ->
  loops w catalog stdin =
    (trace (select_loop catalog initial_vars stdin)
       ++ trace (translation_loop w (set_inputText v "") 0 rest),
     result (translation_loop w (set_inputText v "") 0 rest)).
Proof.
  intros H. unfold loops.
  destruct (bind_ok (select_loop catalog initial_vars stdin)
    (fun sel => translation_loop w (set_inputText (fst sel) "") 0 (snd sel)) _ H)
    as [Ht Hr].
  rewrite (M_eta (bind _ _)). now rewrite Ht, Hr.
Qed.
End Session.

(** ** Failures of remote calls are terminal *)

Lemma terminal_failures_console w calls t1 t2 :
  Forall console t1 -> terminal_failures w calls t2 ->
  terminal_failures w calls (t1 ++ t2).
Proof.
  induction 1 as [|ev t1 Hev _ IH]; [trivial|].
  intros H. destruct ev; try contradiction; simpl; auto.
Qed.

Lemma prints_console ls : Forall console (map EvPrint ls).
Proof. induction ls; simpl; constructor; simpl; auto. Qed.

Lemma select_loop_console catalog v stdin :
  Forall console (trace (select_loop catalog v stdin)).
Proof.
  revert v. induction stdin as [|c stdin IH]; intros v;
    destruct (supportedLanguage v) eqn:Hv.
  - rewrite select_loop_done by assumption. constructor.
  - rewrite select_loop_eof by assumption. repeat constructor.
  - rewrite select_loop_done by assumption. constructor.
  - destruct (catalog !! c) as [x|] eqn:Hc.
    + rewrite select_loop_accept by eauto. repeat constructor.
    + rewrite select_loop_reject by assumption. simpl.
      repeat (constructor; [exact I|]). apply IH.
Qed.

Lemma translation_loop_terminal w v calls stdin :
  terminal_failures w calls
    (trace (translation_loop w v calls stdin)
       ++ boundary (result (translation_loop w v calls stdin))).
Proof.
  apply (translation_loop_cases w (fun v calls stdin m =>
           terminal_failures w calls (trace m ++ boundary (result m)))).
  - intros; exact I.
  - intros; exact I.
  - intros; exact I.
  - intros v0 c0 line r0 e _ _ Ht. simpl. now rewrite Ht.
  - intros v0 c0 line r0 resp _ _ Ht IH. simpl. rewrite Ht.
    rewrite <- app_assoc. apply terminal_failures_console; [apply prints_console|].
    exact IH.
Qed.

Lemma main_terminal w stdin : terminal_failures w 0 (main w stdin).
Proof.
  unfold main.
  destruct (TextTranslationClient w (getenv w "TRANSLATOR_KEY")
              (getenv w "TRANSLATOR_REGION")) as [[]|e] eqn:Hc.
  - destruct (get_supported_languages w "translation") as [catalog|e] eqn:Hl.
    + rewrite (session_ok w stdin catalog Hc Hl). simpl. rewrite Hc, Hl.
      destruct (result (select_loop catalog initial_vars stdin)) as [[v rest]|e] eqn:Hs.
      * rewrite (loops_select_returns w stdin catalog v rest Hs). simpl.
        rewrite <- app_assoc. apply terminal_failures_console.
        { apply select_loop_console. }
        apply translation_loop_terminal.
      * rewrite (loops_select_raises w stdin catalog e Hs). simpl.
        apply terminal_failures_console; [apply select_loop_console|exact I].
    + rewrite (session_languages_raise w stdin e Hc Hl). simpl. now rewrite Hc, Hl.
  - rewrite (session_client_raises w stdin e Hc). simpl. now rewrite Hc.
Qed.

Lemma terminal_failures_split w calls pre ev post e :
  terminal_failures w calls (pre ++ ev :: post) ->
  remote_failure w (calls + length (translate_calls pre)) ev = Some e ->
  post = [EvPrint (str e)].
Proof.
  revert calls. induction pre as [|ev0 pre IH]; intros calls Ht Hf.
  - simpl in *. rewrite Nat.add_0_r in Hf. now rewrite Hf in Ht.
  - simpl in Ht. destruct (remote_failure w calls ev0) as [e0|] eqn:H0.
    + destruct pre as [|ev1 pre]; simpl in Ht.
      * injection Ht as -> ->. discriminate Hf.
      * injection Ht as _ Ht. destruct pre; discriminate Ht.
    + apply (IH _ Ht).
      destruct ev0; simpl in *; try exact Hf.
      now rewrite <- Nat.add_succ_r.
Qed.

(** * The claims *)

(** ** The sentinel *)

(** An input line that is ["quit"] up to letter case ends the loop: no
    further line is read after it, provided the iteration does not raise. *)
Lemma sentinel_ends_loop w v calls line rest v' calls' rest' :
  lower (inputText v) <> "quit" -> lower line = "quit" ->
  result (translation_loop w v calls (line :: rest)) = Ok (v', calls', rest') ->
  rest' = rest /\ inputText v' = line.
Proof.
  intros Hv Hline Hres.
  destruct (String.eqb_spec line "quit") as [->|Hl].
  - rewrite translation_loop_quit in Hres by assumption.
    now injection Hres as <- _ <-.
  - destruct (translate w calls [ {| item_text := line |} ] [targetLanguage v])
      as [resp|e] eqn:Ht.
    + rewrite (translation_loop_ok w v calls line rest resp) in Hres by assumption.
      simpl in Hres. rewrite translation_loop_exit in Hres by exact Hline.
      now injection Hres as <- _ <-.
    + rewrite (translation_loop_raise w v calls line rest e) in Hres by assumption.
      discriminate.
Qed.

(** C1 (evaluation of the code at the input ["QUIT"]).  The guard of line
    79 compares with ["quit"] exactly, so the upper-case spelling is sent to
    the service like any other text: a translate call for ["QUIT"] is issued
    and its result shown; only then does the loop condition of line 74,
    which lowers the text, end the loop. *)
Theorem C1_uppercase_quit_is_translated w v calls rest :
  translation_loop w (set_inputText v "") calls ("QUIT" :: rest) =
    match translate w calls [ {| item_text := "QUIT" |} ] [targetLanguage v] with
    | Ok resp =>
        (EvInput text_prompt (Some "QUIT")
           :: EvTranslate [ {| item_text := "QUIT" |} ] [targetLanguage v]
           :: map EvPrint (shown "QUIT" resp),
         Ok (set_inputText v "QUIT", S calls, rest))
    | Raise e =>
        ([EvInput text_prompt (Some "QUIT");
          EvTranslate [ {| item_text := "QUIT" |} ] [targetLanguage v]],
         Raise e)
    end.
Proof.
  destruct (translate w calls [ {| item_text := "QUIT" |} ] [targetLanguage v])
    as [resp|e] eqn:Ht.
  - rewrite (translation_loop_ok w (set_inputText v "") calls "QUIT" rest resp);
      [|discriminate|discriminate|exact Ht].
    rewrite translation_loop_exit by reflexivity. simpl.
    now rewrite app_nil_r.
  - now rewrite (translation_loop_raise w (set_inputText v "") calls "QUIT" rest e).
Qed.

(** ** The language-selection loop *)

(** C2.  While no language is selected, an input [c] that is not a key of
    the catalog (the empty string included) costs exactly one printed line,
    the rejection notice [c ++ " is not a supported language."]; the loop
    then goes on in the same state of search, so that its next action is
    to read a line again; and [c] is not the selection the loop returns. *)
Theorem C2_unsupported_code_is_rejected
    (catalog : gmap string TranslationLanguage) v c rest :
  supportedLanguage v = false ->
  catalog !! c = None ->
  let again := select_loop catalog (set_targetLanguage v c) rest in
  trace (select_loop catalog v (c :: rest)) =
    EvInput "" (Some c) :: EvPrint (c ++ " is not a supported language.")%string
      :: trace again
  /\ result (select_loop catalog v (c :: rest)) = result again
  /\ supportedLanguage (set_targetLanguage v c) = false
  /\ (exists r, head (trace again) = Some (EvInput "" r))
  /\ (forall v' rest', result (select_loop catalog v (c :: rest)) = Ok (v', rest') ->
        targetLanguage v' <> c).
Proof.
  intros Hv Hc again.
  rewrite select_loop_reject by assumption. simpl.
  repeat split; try assumption.
  - apply select_loop_reads_first. exact Hv.
  - intros v' rest' Hres.
    apply select_loop_returns in Hres as (_ & _ & _ & [x Hx] & _); [|exact Hv].
    intros Heq. rewrite Heq in Hx. congruence.
Qed.

(** The empty string is not special: it is rejected whenever it is not a
    key of the catalog. *)
Lemma empty_code_is_rejected (catalog : gmap string TranslationLanguage) v rest :
  supportedLanguage v = false -> catalog !! "" = None ->
  printed (trace (select_loop catalog v ("" :: rest))) =
    " is not a supported language."
      :: printed (trace (select_loop catalog (set_targetLanguage v "") rest)).
Proof.
  intros Hv Hc. now rewrite select_loop_reject.
Qed.

(** C3.  An input [c] that is a key of the catalog ends the selection
    loop at once: the loop returns with [targetLanguage = c], the rest of the
    input untouched, and nothing printed. *)
Theorem C3_supported_code_is_selected
    (catalog : gmap string TranslationLanguage) v c rest :
  supportedLanguage v = false ->
  is_Some (catalog !! c) ->
  exists v',
    select_loop catalog v (c :: rest) = ([EvInput "" (Some c)], Ok (v', rest))
    /\ targetLanguage v' = c
    /\ supportedLanguage v' = true
    /\ printed (trace (select_loop catalog v (c :: rest))) = [].
Proof.
  intros Hv Hc. rewrite select_loop_accept by assumption.
  eexists. split; [reflexivity|]. auto.
Qed.

(** ** The translation loop *)

(** X4.  An iteration whose translate call answers with the empty list
    prints nothing and, unless the text spells the sentinel, reads the next
    line. *)
Lemma empty_response_continues w v calls line rest :
  lower (inputText v) <> "quit" -> lower line <> "quit" ->
  translate w calls [ {| item_text := line |} ] [targetLanguage v] = Ok [] ->
  let next := translation_loop w (set_inputText v line) (S calls) rest in
  translation_loop w v calls (line :: rest) =
    (EvInput text_prompt (Some line)
       :: EvTranslate [ {| item_text := line |} ] [targetLanguage v]
       :: trace next,
     result next)
  /\ exists r, head (trace next) = Some (EvInput text_prompt r).
Proof.
  intros Hv Hline Ht next.
  assert (Hl : line <> "quit") by (intros ->; apply Hline; reflexivity).
  rewrite (translation_loop_ok w v calls line rest []) by assumption.
  split; [reflexivity|]. subst next.
  destruct rest as [|line' rest].
  - rewrite translation_loop_eof by exact Hline. eauto.
  - destruct (String.eqb_spec line' "quit") as [->|Hl'].
    + rewrite translation_loop_quit by exact Hline. eauto.
    + destruct (translate w (S calls) [ {| item_text := line' |} ]
                  [targetLanguage (set_inputText v line)]) as [resp|e] eqn:Ht'.
      * rewrite (translation_loop_ok w _ _ line' rest resp) by assumption. eauto.
      * rewrite (translation_loop_raise w _ _ line' rest e) by assumption. eauto.
Qed.

(** C4 (evaluation of the code at the input ["QUIT"] with an empty
    response).  The translate call for ["QUIT"] is issued; when it answers
    with the empty list nothing is printed and nothing is raised, but the
    loop ends there: the lines left on stdin are not read. *)
Theorem C4_empty_response_after_uppercase_quit w v calls rest :
  translate w calls [ {| item_text := "QUIT" |} ] [targetLanguage v] = Ok [] ->
  translation_loop w (set_inputText v "") calls ("QUIT" :: rest) =
    ([EvInput text_prompt (Some "QUIT");
      EvTranslate [ {| item_text := "QUIT" |} ] [targetLanguage v]],
     Ok (set_inputText v "QUIT", S calls, rest)).
Proof.
  intros Ht.
  rewrite (translation_loop_ok w (set_inputText v "") calls "QUIT" rest []);
    [|discriminate|discriminate|exact Ht].
  now rewrite translation_loop_exit.
Qed.

(** C7.  When the translate call of an iteration answers with a
    non-empty list, the iteration prints, for each entry of the
    translations of the first item, one line of the form
    ['<inputText>' was translated from <detected> to <target> as '<text>'.]
    and nothing else. *)
Theorem C7_result_line_format w v calls line rest translation others :
  lower (inputText v) <> "quit" -> line <> "quit" ->
  translate w calls [ {| item_text := line |} ] [targetLanguage v]
    = Ok (translation :: others) ->
  trace (translation_loop w v calls (line :: rest)) =
    EvInput text_prompt (Some line)
      :: EvTranslate [ {| item_text := line |} ] [targetLanguage v]
      :: map (fun t => EvPrint ("'" ++ line ++ "' was translated from "
                                  ++ language (detected_language translation)
                                  ++ " to " ++ to t
                                  ++ " as '" ++ text t ++ "'.")%string)
             (translations translation)
      ++ trace (translation_loop w (set_inputText v line) (S calls) rest).
Proof.
  intros Hv Hl Ht.
  rewrite (translation_loop_ok w v calls line rest _ Hv Hl Ht).
  simpl. now rewrite map_map.
Qed.

(** C8.  When the first line typed at the text prompt is ["quit"], the
    loop returns after that single read: no translate call, nothing
    printed. *)
Theorem C8_quit_first w v rest :
  translation_loop w (set_inputText v "") 0 ("quit" :: rest) =
    ([EvInput text_prompt (Some "quit")], Ok (set_inputText v "quit", 0, rest))
  /\ translate_calls (trace (translation_loop w (set_inputText v "") 0 ("quit" :: rest))) = []
  /\ printed (trace (translation_loop w (set_inputText v "") 0 ("quit" :: rest))) = [].
Proof.
  rewrite translation_loop_quit by discriminate. auto.
Qed.

(** C10.  An empty line at the text prompt is translated like any other
    text: the translate call carries the single item [""]; when the answer
    is not empty, one result line is printed for each translation of its
    first item, in the form of line 102 with the empty text between the
    first pair of quotes; and the loop goes on with the next line. *)
Theorem C10_empty_text_is_translated w v calls rest :
  lower (inputText v) <> "quit" ->
  translation_loop w v calls ("" :: rest) =
    match translate w calls [ {| item_text := "" |} ] [targetLanguage v] with
    | Ok resp =>
        (EvInput text_prompt (Some "")
           :: EvTranslate [ {| item_text := "" |} ] [targetLanguage v]
           :: match resp with
              | [] => []
              | translation :: _ =>
                  map (fun t => EvPrint ("'" ++ "" ++ "' was translated from "
                                           ++ language (detected_language translation)
                                           ++ " to " ++ to t
                                           ++ " as '" ++ text t ++ "'.")%string)
                      (translations translation)
              end
           ++ trace (translation_loop w (set_inputText v "") (S calls) rest),
         result (translation_loop w (set_inputText v "") (S calls) rest))
    | Raise e =>
        ([EvInput text_prompt (Some "");
          EvTranslate [ {| item_text := "" |} ] [targetLanguage v]],
         Raise e)
    end.
Proof.
  intros Hv.
  destruct (translate w calls [ {| item_text := "" |} ] [targetLanguage v])
    as [resp|e] eqn:Ht.
  - rewrite (translation_loop_ok w v calls "" rest resp); [|assumption|discriminate|exact Ht].
    destruct resp as [|translation others]; [reflexivity|].
    cbn [shown]. now rewrite map_map.
  - now rewrite (translation_loop_raise w v calls "" rest e).
Qed.

(** ** The error boundary *)

(** C5.  Whenever a remote call of the session (the construction of the
    client, the request for the supported languages, a translate call) is
    answered with an exception, what follows it in the run of [main] is the
    print of the text of that exception and nothing more: no further read,
    no further remote call, in particular no second attempt. *)
Theorem C5_remote_failure_is_terminal w stdin pre ev post e :
  main w stdin = pre ++ ev :: post ->
  remote_failure w (length (translate_calls pre)) ev = Some e ->
  post = [EvPrint (str e)].
Proof.
  intros Hmain Hfail.
  apply (terminal_failures_split w 0 pre ev post e); [|exact Hfail].
  rewrite <- Hmain. apply main_terminal.
Qed.

(** ** The selection is fixed *)

Lemma translate_calls_boundary {A} (o : outcome A) : translate_calls (boundary o) = [].
Proof. destruct o; reflexivity. Qed.

Lemma select_states_done (catalog : gmap string TranslationLanguage) v stdin :
  supportedLanguage v = true -> select_states catalog v stdin = [].
Proof. intros H. destruct stdin; simpl; now rewrite H. Qed.

Lemma select_states_accept (catalog : gmap string TranslationLanguage) v c rest :
  supportedLanguage v = false -> is_Some (catalog !! c) ->
  select_states catalog v (c :: rest) =
    [set_supportedLanguage (set_targetLanguage v c) true].
Proof.
  intros H [x Hx]. simpl. rewrite H, Hx.
  now rewrite select_states_done.
Qed.

Lemma select_states_reject (catalog : gmap string TranslationLanguage) v c rest :
  supportedLanguage v = false -> catalog !! c = None ->
  select_states catalog v (c :: rest) =
    set_targetLanguage v c :: select_states catalog (set_targetLanguage v c) rest.
Proof. intros H Hc. simpl. now rewrite H, Hc. Qed.

(** Every line the selection loop reads is written to [targetLanguage]. *)
Lemma select_states_reads (catalog : gmap string TranslationLanguage) v stdin :
  map targetLanguage (select_states catalog v stdin)
  = lines_read (trace (select_loop catalog v stdin)).
Proof.
  revert v. induction stdin as [|c stdin IH]; intros v;
    destruct (supportedLanguage v) eqn:Hv.
  - now rewrite select_states_done, select_loop_done.
  - rewrite select_loop_eof by assumption. simpl. now rewrite Hv.
  - now rewrite select_states_done, select_loop_done.
  - destruct (catalog !! c) as [x|] eqn:Hc.
    + rewrite select_states_accept, select_loop_accept by eauto. reflexivity.
    + rewrite select_states_reject, select_loop_reject by assumption.
      cbn [map trace fst lines_read]. f_equal. apply IH.
Qed.

(** When the loop returns, the writes are the rejected codes followed by
    the accepted one, and the last state is the one returned. *)
Lemma select_states_returns (catalog : gmap string TranslationLanguage)
    v stdin v' rest :
  supportedLanguage v = false ->
  result (select_loop catalog v stdin) = Ok (v', rest) ->
  exists rejected,
    stdin = rejected ++ targetLanguage v' :: rest
    /\ Forall (fun c => catalog !! c = None) rejected
    /\ map targetLanguage (select_states catalog v stdin)
       = rejected ++ [targetLanguage v']
    /\ last (select_states catalog v stdin) = Some v'.
Proof.
  revert v. induction stdin as [|c stdin IH]; intros v Hv Hres.
  - rewrite select_loop_eof in Hres by assumption. discriminate.
  - destruct (catalog !! c) as [x|] eqn:Hc.
    + rewrite select_loop_accept in Hres by eauto.
      injection Hres as <- <-. exists [].
      rewrite select_states_accept by eauto. simpl. auto.
    + rewrite select_loop_reject in Hres by assumption. cbn [result snd] in Hres.
      destruct (IH (set_targetLanguage v c) Hv Hres)
        as (rej & Hstdin & Hrej & Hmap & Hlast).
      exists (c :: rej). rewrite select_states_reject by assumption.
      cbn [map app]. rewrite Hmap, <- Hstdin. repeat split; auto.
      destruct (select_states catalog (set_targetLanguage v c) stdin);
        [discriminate Hlast | exact Hlast].
Qed.

(** C6 (as amended).  [targetLanguage] is written once per read of the
    selection loop, rejected codes included, after the placeholder of line
    54; when the loop returns, the last of these writes is the one whose
    lookup succeeded: its value is a key of the catalog, while every earlier
    line read is not.  From then on [targetLanguage] is not written: every
    translate call of the session names that code as the only target,
    and it is still the value of [targetLanguage] when the session ends. *)
Theorem C6_selection_fixed_after_validation w stdin catalog v rest :
  TextTranslationClient w (getenv w "TRANSLATOR_KEY") (getenv w "TRANSLATOR_REGION")
    = Ok tt ->
  get_supported_languages w "translation" = Ok catalog ->
  result (select_loop catalog initial_vars stdin) = Ok (v, rest) ->
  (exists rejected,
      stdin = rejected ++ targetLanguage v :: rest
      /\ Forall (fun c => catalog !! c = None) rejected
      /\ target_writes catalog stdin = "xx" :: rejected ++ [targetLanguage v])
  /\ map targetLanguage (select_states catalog initial_vars stdin)
     = lines_read (trace (select_loop catalog initial_vars stdin))
  /\ last (select_states catalog initial_vars stdin) = Some v
  /\ is_Some (catalog !! targetLanguage v)
  /\ Forall (fun call => snd call = [targetLanguage v])
            (translate_calls (main w stdin))
  /\ (forall v' calls' rest',
        result (session w stdin) = Ok (v', calls', rest') ->
        targetLanguage v' = targetLanguage v).
Proof.
  intros Hc Hl Hs.
  destruct (select_states_returns catalog initial_vars stdin v rest eq_refl Hs)
    as (rejected & Hstdin & Hrej & Hmap & Hlast).
  destruct (select_loop_returns catalog initial_vars stdin v rest eq_refl Hs)
    as (_ & _ & _ & Hkey & _ & _).
  split.
  { exists rejected. unfold target_writes. rewrite Hmap. auto. }
  split; [apply select_states_reads|].
  split; [exact Hlast|]. split; [exact Hkey|].
  unfold main. rewrite (session_ok w stdin catalog Hc Hl).
  rewrite (loops_select_returns w stdin catalog v rest Hs).
  unfold trace at 1, result at 1 2. simpl fst. simpl snd. split.
  - unfold boot. rewrite !translate_calls_app, translate_calls_boundary, app_nil_r.
    simpl. rewrite !translate_calls_app, select_loop_no_translate. simpl.
    eapply Forall_impl; [apply translation_loop_calls|].
    intros call [line ->]. reflexivity.
  - intros v' calls' rest' Hres.
    now apply translation_loop_keeps_target in Hres.
Qed.

(** ** The banner *)

Lemma head_app_cons {A} (x : A) (l1 l2 : list A) :
  head l1 = Some x -> head (l1 ++ l2) = Some x.
Proof. destruct l1; [discriminate | trivial]. Qed.

Lemma loops_reads_first w catalog stdin :
  exists r, head (trace (loops w catalog stdin)) = Some (EvInput "" r).
Proof.
  destruct (select_loop_reads_first catalog initial_vars stdin eq_refl) as [r Hr].
  exists r.
  destruct (result (select_loop catalog initial_vars stdin)) as [[v rest]|e] eqn:Hs.
  - rewrite (loops_select_returns w stdin catalog v rest Hs). simpl.
    now apply head_app_cons.
  - now rewrite (loops_select_raises w stdin catalog e Hs).
Qed.

Lemma loops_prints w catalog stdin :
  Forall (fun l => (exists c, l = rejection c)
                   \/ (exists a b c d, l = result_line a b c d))
         (printed (trace (loops w catalog stdin))).
Proof.
  assert (Hsel := select_loop_prints catalog initial_vars stdin).
  destruct (result (select_loop catalog initial_vars stdin)) as [[v rest]|e] eqn:Hs.
  - rewrite (loops_select_returns w stdin catalog v rest Hs). simpl.
    rewrite printed_app. apply Forall_app. split.
    + eapply Forall_impl; [exact Hsel|]. simpl. auto.
    + eapply Forall_impl; [apply translation_loop_prints|]. simpl. auto.
  - rewrite (loops_select_raises w stdin catalog e Hs). simpl.
    eapply Forall_impl; [exact Hsel|]. simpl. auto.
Qed.

(** C9.  Once the client is built and the catalog fetched, [main] prints
    three lines: the size of the catalog followed by
    [" languages supported."], the documentation pointer, and the
    instruction line.  The first read of a language code comes right after
    them, and none of the three lines is printed again by the session; the
    only other output of [main] is the print of the error boundary. *)
Theorem C9_banner w stdin catalog :
  TextTranslationClient w (getenv w "TRANSLATOR_KEY") (getenv w "TRANSLATOR_REGION")
    = Ok tt ->
  get_supported_languages w "translation" = Ok catalog ->
  exists tail,
    main w stdin =
      [ EvClient (getenv w "TRANSLATOR_KEY") (getenv w "TRANSLATOR_REGION");
        EvLanguages "translation";
        EvPrint (pretty (size catalog) ++ " languages supported.")%string;
        EvPrint "(See https://learn.microsoft.com/azure/ai-services/translator/language-support#translation)";
        EvPrint "Enter a target language code for translation (for example, 'en'):" ]
      ++ tail ++ boundary (result (session w stdin))
    /\ (exists r, head tail = Some (EvInput "" r))
    /\ (forall l, In l (banner_lines (size catalog)) -> ~ In (EvPrint l) tail).
Proof.
  intros Hc Hl. exists (trace (loops w catalog stdin)).
  split; [|split].
  - unfold main. now rewrite (session_ok w stdin catalog Hc Hl).
  - apply loops_reads_first.
  - intros l Hl' Hin%printed_In.
    assert (Hp := loops_prints w catalog stdin).
    rewrite List.Forall_forall in Hp.
    destruct (Hp l Hin) as [[c ->]|(a & b & c & d & ->)].
    + exact (rejection_not_banner _ _ Hl').
    + exact (result_line_not_banner _ _ _ _ _ Hl').
Qed.

(** * The claims on the sample world *)

(** A whole run: one rejected code, one accepted, one text, the sentinel. *)
Example sample_run :
  main sample_world ["xx"; "fr"; "Hello"; "quit"] =
  [ EvClient (Some "TRANSLATOR_KEY") (Some "TRANSLATOR_REGION");
    EvLanguages "translation";
    EvPrint "2 languages supported.";
    EvPrint pointer_line;
    EvPrint instruction_line;
    EvInput "" (Some "xx");
    EvPrint "xx is not a supported language.";
    EvInput "" (Some "fr");
    EvInput text_prompt (Some "Hello");
    EvTranslate [ {| item_text := "Hello" |} ] ["fr"];
    EvPrint "'Hello' was translated from en to fr as 'Bonjour'.";
    EvInput text_prompt (Some "quit") ].
Proof. vm_compute. reflexivity. Qed.

(** The upper-case spelling of the sentinel reaches the service before the
    loop ends. *)
Example uppercase_quit_run :
  main sample_world ["fr"; "QUIT"; "Hello"] =
  [ EvClient (Some "TRANSLATOR_KEY") (Some "TRANSLATOR_REGION");
    EvLanguages "translation";
    EvPrint "2 languages supported.";
    EvPrint pointer_line;
    EvPrint instruction_line;
    EvInput "" (Some "fr");
    EvInput text_prompt (Some "QUIT");
    EvTranslate [ {| item_text := "QUIT" |} ] ["fr"] ].
Proof. vm_compute. reflexivity. Qed.

(** At end of file [input] raises, and the boundary prints the exception. *)
Example end_of_file_run :
  main sample_world ["de"] =
  [ EvClient (Some "TRANSLATOR_KEY") (Some "TRANSLATOR_REGION");
    EvLanguages "translation";
    EvPrint "2 languages supported.";
    EvPrint pointer_line;
    EvPrint instruction_line;
    EvInput "" (Some "de");
    EvPrint "de is not a supported language.";
    EvInput "" None;
    EvPrint "EOF when reading a line" ].
Proof. vm_compute. reflexivity. Qed.

Lemma C2_witness :
  trace (select_loop sample_catalog initial_vars ["xx"; "fr"]) =
    EvInput "" (Some "xx") :: EvPrint "xx is not a supported language."
      :: trace (select_loop sample_catalog (set_targetLanguage initial_vars "xx") ["fr"]).
Proof.
  apply (C2_unsupported_code_is_rejected sample_catalog initial_vars "xx" ["fr"]);
    vm_compute; reflexivity.
Defined.

Lemma C3_witness :
  exists v',
    select_loop sample_catalog initial_vars ["fr"; "Hello"] =
      ([EvInput "" (Some "fr")], Ok (v', ["Hello"]))
    /\ targetLanguage v' = "fr"
    /\ supportedLanguage v' = true
    /\ printed (trace (select_loop sample_catalog initial_vars ["fr"; "Hello"])) = [].
Proof.
  apply (C3_supported_code_is_selected sample_catalog initial_vars "fr" ["Hello"]).
  - reflexivity.
  - vm_compute. eauto.
Defined.

Lemma C4_witness :
  translation_loop sample_world (set_inputText fr_vars "") 0 ["QUIT"; "Hello"] =
    ([EvInput text_prompt (Some "QUIT");
      EvTranslate [ {| item_text := "QUIT" |} ] ["fr"]],
     Ok (set_inputText fr_vars "QUIT", 1, ["Hello"])).
Proof.
  apply (C4_empty_response_after_uppercase_quit sample_world fr_vars 0 ["Hello"]).
  reflexivity.
Defined.

Lemma C5_witness :
  [EvPrint "(401000) The request is not authorized."] =
  [EvPrint (str (SdkError "(401000) The request is not authorized."))].
Proof.
  apply (C5_remote_failure_is_terminal sample_world ["fr"; "boom"; "Hello"]
           [ EvClient (Some "TRANSLATOR_KEY") (Some "TRANSLATOR_REGION");
             EvLanguages "translation";
             EvPrint "2 languages supported.";
             EvPrint pointer_line;
             EvPrint instruction_line;
             EvInput "" (Some "fr");
             EvInput text_prompt (Some "boom") ]
           (EvTranslate [ {| item_text := "boom" |} ] ["fr"])).
  - vm_compute. reflexivity.
  - reflexivity.
Defined.

(** C6 as first stated fails: with the input lines ["de"] and ["fr"] the
    selection loop returns with ["fr"], yet [targetLanguage] was written
    three times, and its first two values are not keys of the catalog. *)
Lemma C6_counterexample :
  result (select_loop sample_catalog initial_vars ["de"; "fr"])
    = Ok ({| targetLanguage := "fr"; supportedLanguage := true; inputText := "" |}, [])
  /\ target_writes sample_catalog ["de"; "fr"] = ["xx"; "de"; "fr"]
  /\ sample_catalog !! "xx" = None
  /\ sample_catalog !! "de" = None
  /\ ~ (exists c, target_writes sample_catalog ["de"; "fr"] = [c]).
Proof.
  repeat split; try (vm_compute; reflexivity).
  intros [c Hc]. vm_compute in Hc. discriminate Hc.
Qed.

Lemma C6_witness :
  (exists rejected,
      ["xx"; "de"; "fr"; "Hello"; "quit"] = rejected ++ "fr" :: ["Hello"; "quit"]
      /\ Forall (fun c => sample_catalog !! c = None) rejected
      /\ target_writes sample_catalog ["xx"; "de"; "fr"; "Hello"; "quit"]
         = "xx" :: rejected ++ ["fr"])
  /\ Forall (fun call => snd call = ["fr"])
            (translate_calls (main sample_world ["xx"; "de"; "fr"; "Hello"; "quit"])).
Proof.
  destruct (C6_selection_fixed_after_validation sample_world
              ["xx"; "de"; "fr"; "Hello"; "quit"] sample_catalog
              {| targetLanguage := "fr"; supportedLanguage := true; inputText := "" |}
              ["Hello"; "quit"])
    as (Hwrites & _ & _ & _ & Hcalls & _).
  - reflexivity.
  - reflexivity.
  - vm_compute. reflexivity.
  - split; [exact Hwrites | exact Hcalls].
Defined.

Lemma C7_witness :
  trace (translation_loop sample_world fr_vars 0 ["Hello"; "quit"]) =
    [ EvInput text_prompt (Some "Hello");
      EvTranslate [ {| item_text := "Hello" |} ] ["fr"];
      EvPrint "'Hello' was translated from en to fr as 'Bonjour'.";
      EvInput text_prompt (Some "quit") ].
Proof.
  rewrite (C7_result_line_format sample_world fr_vars 0 "Hello" ["quit"]
             {| detected_language := {| language := "en"; score := 1 |};
                translations := [ {| to := "fr"; text := "Bonjour" |} ] |} []).
  - vm_compute. reflexivity.
  - discriminate.
  - discriminate.
  - reflexivity.
Defined.

Lemma C9_witness :
  exists tail,
    main sample_world ["fr"; "quit"] =
      [ EvClient (Some "TRANSLATOR_KEY") (Some "TRANSLATOR_REGION");
        EvLanguages "translation";
        EvPrint "2 languages supported.";
        EvPrint "(See https://learn.microsoft.com/azure/ai-services/translator/language-support#translation)";
        EvPrint "Enter a target language code for translation (for example, 'en'):" ]
      ++ tail ++ boundary (result (session sample_world ["fr"; "quit"]))
    /\ (exists r, head tail = Some (EvInput "" r))
    /\ (forall l, In l (banner_lines 2) -> ~ In (EvPrint l) tail).
Proof.
  apply (C9_banner sample_world ["fr"; "quit"] sample_catalog); reflexivity.
Defined.

Lemma C10_witness :
  translation_loop echo_world fr_vars 0 [""; "quit"] =
    ([ EvInput text_prompt (Some "");
       EvTranslate [ {| item_text := "" |} ] ["fr"];
       EvPrint "'' was translated from en to fr as ''.";
       EvInput text_prompt (Some "quit") ],
     Ok (set_inputText fr_vars "quit", 1, [])).
Proof.
  rewrite (C10_empty_text_is_translated echo_world fr_vars 0 ["quit"]).
  - vm_compute. reflexivity.
  - discriminate.
Defined.

(** * Further properties of [main] *)

(** ** The selection loop as a whole *)

(** X1.  While no language is selected, a run of unsupported codes
    followed by a supported one is handled in order: one read and one
    rejection notice per unsupported code, then the read of the supported
    code, which becomes [targetLanguage]; the lines after it are left on
    stdin. *)
Theorem select_loop_run (catalog : gmap string TranslationLanguage)
    v rejected sel rest :
  supportedLanguage v = false ->
  Forall (fun c => catalog !! c = None) rejected ->
  is_Some (catalog !! sel) ->
  select_loop catalog v (rejected ++ sel :: rest) =
    (rejected_trace rejected ++ [EvInput "" (Some sel)],
     Ok (set_supportedLanguage (set_targetLanguage v sel) true, rest)).
Proof.
  intros Hv Hrej Hsel. revert v Hv.
  induction Hrej as [|c rejected Hc _ IH]; intros v Hv.
  - apply select_loop_accept; assumption.
  - rewrite <- app_comm_cons, select_loop_reject by assumption.
    now rewrite (IH (set_targetLanguage v c) Hv).
Qed.

Lemma select_loop_all_rejected (catalog : gmap string TranslationLanguage) v stdin :
  supportedLanguage v = false ->
  Forall (fun c => catalog !! c = None) stdin ->
  select_loop catalog v stdin =
    (rejected_trace stdin ++ [EvInput "" None], Raise EOFError).
Proof.
  intros Hv Hrej. revert v Hv.
  induction Hrej as [|c stdin Hc _ IH]; intros v Hv.
  - apply select_loop_eof; assumption.
  - rewrite select_loop_reject by assumption.
    now rewrite (IH (set_targetLanguage v c) Hv).
Qed.

(** X2.  When stdin holds no supported code, [main] rejects every line in
    order, then meets the end of file in [input]: the error boundary prints
    the text of [EOFError] and no translate call was made. *)
Theorem no_supported_code_ends_in_eof w stdin catalog :
  TextTranslationClient w (getenv w "TRANSLATOR_KEY") (getenv w "TRANSLATOR_REGION")
    = Ok tt ->
  get_supported_languages w "translation" = Ok catalog ->
  Forall (fun c => catalog !! c = None) stdin ->
  main w stdin =
    boot w ++ EvLanguages "translation"
      :: map EvPrint (banner_lines (size catalog))
      ++ rejected_trace stdin
      ++ [EvInput "" None; EvPrint "EOF when reading a line"].
Proof.
  intros Hc Hl Hrej. unfold main.
  rewrite (session_ok w stdin catalog Hc Hl).
  assert (Hs := select_loop_all_rejected catalog initial_vars stdin eq_refl Hrej).
  rewrite (loops_select_raises w stdin catalog EOFError) by now rewrite Hs.
  rewrite Hs. cbn [trace result fst snd boundary str].
  repeat (rewrite <- app_assoc || rewrite <- app_comm_cons). reflexivity.
Qed.

(** ** The translation loop as a whole *)

(** X3.  A line that spells the sentinel in any letter case is the last
    line the loop reads: what the loop does is the same whatever follows
    on stdin, and when it returns the following lines are still unread. *)
Theorem sentinel_is_last_read w v calls line rest :
  lower (inputText v) <> "quit" -> lower line = "quit" ->
  trace (translation_loop w v calls (line :: rest))
    = trace (translation_loop w v calls [line])
  /\ lines_read (trace (translation_loop w v calls (line :: rest))) = [line]
  /\ (forall v' calls' rest',
        result (translation_loop w v calls (line :: rest)) = Ok (v', calls', rest') ->
        rest' = rest).
Proof.
  intros Hv Hline.
  destruct (String.eqb_spec line "quit") as [->|Hl].
  - rewrite !translation_loop_quit by assumption.
    repeat split. intros v' calls' rest' [= _ _ <-]. reflexivity.
  - destruct (translate w calls [ {| item_text := line |} ] [targetLanguage v])
      as [resp|e] eqn:Ht.
    + rewrite !(translation_loop_ok w v calls line _ resp) by assumption.
      rewrite !translation_loop_exit by exact Hline.
      cbn [trace result fst snd ret]. rewrite app_nil_r.
      repeat split.
      * cbn [lines_read]. f_equal.
        induction (shown line resp) as [|l ls IH]; [reflexivity | exact IH].
      * intros v' calls' rest' [= _ _ <-]. reflexivity.
    + rewrite !(translation_loop_raise w v calls line _ e) by assumption.
      repeat split. intros; discriminate.
Qed.

Lemma translation_loop_returns_sentinel w v calls stdin v' calls' rest :
  result (translation_loop w v calls stdin) = Ok (v', calls', rest) ->
  lower (inputText v') = "quit".
Proof.
  revert v' calls' rest.
  apply (translation_loop_cases w (fun v calls stdin m => forall v' calls' rest,
           result m = Ok (v', calls', rest) -> lower (inputText v') = "quit")).
  - intros v0 c0 s0 Hq v' calls' rest [= <- _ _]. exact Hq.
  - intros; discriminate.
  - intros v0 c0 r0 _ v' calls' rest [= <- _ _]. reflexivity.
  - intros; discriminate.
  - intros v0 c0 line r0 resp _ _ _ IH v' calls' rest Hres. exact (IH _ _ _ Hres).
Qed.

(** X5.  The session leaves the [try] body without an exception only
    through the sentinel: the catalog was fetched, [targetLanguage] is one
    of its keys, and the last text read spells ["quit"] up to letter
    case. *)
Theorem session_returns_only_by_sentinel w stdin v' calls' rest' :
  result (session w stdin) = Ok (v', calls', rest') ->
  lower (inputText v') = "quit"
  /\ exists catalog,
       get_supported_languages w "translation" = Ok catalog
       /\ is_Some (catalog !! targetLanguage v').
Proof.
  intros Hres.
  destruct (TextTranslationClient w (getenv w "TRANSLATOR_KEY")
              (getenv w "TRANSLATOR_REGION")) as [[]|e] eqn:Hc.
  - destruct (get_supported_languages w "translation") as [catalog|e] eqn:Hl.
    + rewrite (session_ok w stdin catalog Hc Hl) in Hres. cbn [result snd] in Hres.
      destruct (result (select_loop catalog initial_vars stdin)) as [[v rest]|e] eqn:Hs.
      * rewrite (loops_select_returns w stdin catalog v rest Hs) in Hres.
        cbn [result snd] in Hres. split.
        { exact (translation_loop_returns_sentinel _ _ _ _ _ _ _ Hres). }
        exists catalog. split; [reflexivity|].
        apply translation_loop_keeps_target in Hres. rewrite Hres.
        destruct (select_loop_returns catalog initial_vars stdin v rest eq_refl Hs)
          as (_ & _ & _ & Hkey & _). exact Hkey.
      * rewrite (loops_select_raises w stdin catalog e Hs) in Hres. discriminate.
    + rewrite (session_languages_raise w stdin e Hc Hl) in Hres. discriminate.
  - rewrite (session_client_raises w stdin e Hc) in Hres. discriminate.
Qed.

Lemma lines_read_app t1 t2 : lines_read (t1 ++ t2) = lines_read t1 ++ lines_read t2.
Proof.
  induction t1 as [|ev t1 IH]; [reflexivity|].
  destruct ev as [| | | p [l|] |]; simpl; try assumption. now rewrite IH.
Qed.

Lemma lines_read_prints ls : lines_read (map EvPrint ls) = [].
Proof. induction ls as [|l ls IH]; [reflexivity | exact IH]. Qed.

(** X7.  The loop sends to the service, one call each and in the order
    typed, exactly the lines read at the text prompt that differ from the
    exact text ["quit"]; each call carries that line as its single item and
    [targetLanguage] as its single target, and the count of calls grows by
    their number. *)
Theorem one_translate_call_per_text w v calls stdin :
  translate_calls (trace (translation_loop w v calls stdin)) =
    map (fun l => ([ {| item_text := l |} ], [targetLanguage v]))
        (List.filter (fun l => negb (String.eqb l "quit"))
                     (lines_read (trace (translation_loop w v calls stdin))))
  /\ (forall v' calls' rest,
        result (translation_loop w v calls stdin) = Ok (v', calls', rest) ->
        calls' = calls
                 + length (translate_calls (trace (translation_loop w v calls stdin)))).
Proof.
  apply (translation_loop_cases w (fun v calls stdin m =>
    translate_calls (trace m) =
      map (fun l => ([ {| item_text := l |} ], [targetLanguage v]))
          (List.filter (fun l => negb (String.eqb l "quit")) (lines_read (trace m)))
    /\ (forall v' calls' rest,
          result m = Ok (v', calls', rest) ->
          calls' = calls + length (translate_calls (trace m))))).
  - intros v0 c0 s0 _. split; [reflexivity|].
    intros v' calls' rest [= _ <- _]. simpl. lia.
  - intros v0 c0 _. split; [reflexivity | intros; discriminate].
  - intros v0 c0 r0 _. split; [reflexivity|].
    intros v' calls' rest [= _ <- _]. simpl. lia.
  - intros v0 c0 line r0 e _ Hl%String.eqb_neq _. split; [|intros; discriminate].
    cbn [trace fst translate_calls lines_read List.filter]. now rewrite Hl.
  - intros v0 c0 line r0 resp _ Hl%String.eqb_neq _ [IHc IHn].
    cbn [trace result fst snd translate_calls lines_read].
    rewrite translate_calls_app, translate_calls_prints, lines_read_app,
      lines_read_prints.
    cbn [app List.filter]. rewrite Hl. cbn [negb map]. split.
    + f_equal. exact IHc.
    + intros v' calls' rest Hres. apply IHn in Hres. simpl. lia.
Qed.

(** ** Failure at startup *)

(** X8.  When the client cannot be built, or the request for the
    supported languages fails, [main] prints the text of the exception and
    nothing else (no banner), reads no line and makes no translate call. *)
Theorem startup_failure_reads_nothing w stdin e :
  TextTranslationClient w (getenv w "TRANSLATOR_KEY") (getenv w "TRANSLATOR_REGION")
    = Raise e
  \/ (TextTranslationClient w (getenv w "TRANSLATOR_KEY") (getenv w "TRANSLATOR_REGION")
        = Ok tt
      /\ get_supported_languages w "translation" = Raise e) ->
  printed (main w stdin) = [str e]
  /\ lines_read (main w stdin) = []
  /\ translate_calls (main w stdin) = [].
Proof.
  intros [Hc | [Hc Hl]]; unfold main.
  - rewrite (session_client_raises w stdin e Hc). repeat split.
  - rewrite (session_languages_raise w stdin e Hc Hl). repeat split.
Qed.

(** ** What the loop looks at in an answer *)

Lemma shown_head_only line r1 r2 :
  head_only (Ok r1) = head_only (Ok r2) -> shown line r1 = shown line r2.
Proof.
  destruct r1 as [|t1 r1], r2 as [|t2 r2]; simpl; intros H;
    try discriminate H; [reflexivity|].
  now injection H as ->.
Qed.

(** X9.  Of an answer of the service the loop uses the first item only:
    two services whose answers agree on the exception or on the first item
    give the same run of the translation loop. *)
Theorem only_first_item_matters w1 w2 v calls stdin :
  (forall n body to_language,
      head_only (translate w1 n body to_language)
      = head_only (translate w2 n body to_language)) ->
  translation_loop w1 v calls stdin = translation_loop w2 v calls stdin.
Proof.
  intros Hagree. revert v calls.
  induction stdin as [|line rest IH]; intros v calls;
    destruct (String.eqb_spec (lower (inputText v)) "quit") as [Hq|Hq].
  - now rewrite !translation_loop_exit.
  - now rewrite !translation_loop_eof.
  - now rewrite !translation_loop_exit.
  - destruct (String.eqb_spec line "quit") as [->|Hl].
    + now rewrite !translation_loop_quit.
    + specialize (Hagree calls [ {| item_text := line |} ] [targetLanguage v]).
      destruct (translate w1 calls [ {| item_text := line |} ] [targetLanguage v])
        as [r1|e1] eqn:H1;
      destruct (translate w2 calls [ {| item_text := line |} ] [targetLanguage v])
        as [r2|e2] eqn:H2.
      * rewrite (translation_loop_ok w1 v calls line rest r1) by assumption.
        rewrite (translation_loop_ok w2 v calls line rest r2) by assumption.
        now rewrite IH, (shown_head_only line r1 r2 Hagree).
      * destruct r1; discriminate Hagree.
      * destruct r2; discriminate Hagree.
      * injection Hagree as ->.
        rewrite (translation_loop_raise w1 v calls line rest e2) by assumption.
        now rewrite (translation_loop_raise w2 v calls line rest e2).
Qed.

(** ** What is printed *)

Lemma select_loop_prints_typed (catalog : gmap string TranslationLanguage) v stdin :
  Forall (fun l => exists c, In c stdin /\ catalog !! c = None /\ l = rejection c)
         (printed (trace (select_loop catalog v stdin))).
Proof.
  revert v. induction stdin as [|c stdin IH]; intros v;
    destruct (supportedLanguage v) eqn:Hv.
  - rewrite select_loop_done by assumption. constructor.
  - rewrite select_loop_eof by assumption. constructor.
  - rewrite select_loop_done by assumption. constructor.
  - destruct (catalog !! c) as [x|] eqn:Hc.
    + rewrite select_loop_accept by eauto. constructor.
    + rewrite select_loop_reject by assumption. cbn [trace fst printed].
      constructor.
      * exists c. split; [now left | auto].
      * eapply Forall_impl; [apply IH|].
        intros l (c' & Hin & Hnone & ->). exists c'. split; [now right | auto].
Qed.

Lemma translation_loop_prints_typed w v calls stdin :
  Forall (fun l => exists a src tgt txt, In a stdin /\ l = result_line a src tgt txt)
         (printed (trace (translation_loop w v calls stdin))).
Proof.
  apply (translation_loop_cases w (fun v calls stdin m =>
    Forall (fun l => exists a src tgt txt, In a stdin /\ l = result_line a src tgt txt)
           (printed (trace m)))).
  - constructor.
  - constructor.
  - constructor.
  - constructor.
  - intros v0 c0 line r0 resp _ _ _ IH. cbn [trace fst printed].
    rewrite printed_app, printed_prints. apply Forall_app. split.
    + destruct resp as [|translation others]; [constructor|]. cbn [shown].
      induction (translations translation) as [|t ts IHt]; simpl; constructor;
        [|exact IHt].
      exists line, (language (detected_language translation)), (to t), (text t).
      split; [now left | reflexivity].
    + eapply Forall_impl; [exact IH|].
      intros l (a & src & tgt & txt & Hin & ->).
      exists a, src, tgt, txt. split; [now right | reflexivity].
Qed.

(** X10.  After a successful startup the [try] body prints nothing but
    the three banner lines, rejection notices for lines of stdin that are
    not keys of the catalog, and result lines that quote a line of stdin. *)
Theorem session_prints_only w stdin catalog :
  TextTranslationClient w (getenv w "TRANSLATOR_KEY") (getenv w "TRANSLATOR_REGION")
    = Ok tt ->
  get_supported_languages w "translation" = Ok catalog ->
  Forall (fun l =>
            In l (banner_lines (size catalog))
            \/ (exists c, In c stdin /\ catalog !! c = None /\ l = rejection c)
            \/ (exists a src tgt txt, In a stdin /\ l = result_line a src tgt txt))
         (printed (trace (session w stdin))).
Proof.
  intros Hc Hl. rewrite (session_ok w stdin catalog Hc Hl). cbn [trace fst].
  unfold boot. cbn [app printed]. rewrite printed_app, printed_prints.
  apply Forall_app. split.
  { apply List.Forall_forall. intros l Hin. now left. }
  assert (Hsel := select_loop_prints_typed catalog initial_vars stdin).
  destruct (result (select_loop catalog initial_vars stdin)) as [[v rest]|e] eqn:Hs.
  - rewrite (loops_select_returns w stdin catalog v rest Hs). cbn [trace fst].
    rewrite printed_app. apply Forall_app. split.
    + eapply Forall_impl; [exact Hsel|]. cbn beta. auto.
    + destruct (select_loop_returns catalog initial_vars stdin v rest eq_refl Hs)
        as (rejected & Hstdin & _).
      eapply Forall_impl; [apply translation_loop_prints_typed|].
      intros l (a & src & tgt & txt & Hin & ->). right. right.
      exists a, src, tgt, txt. split; [|reflexivity].
      rewrite Hstdin. apply in_or_app. right. now right.
  - rewrite (loops_select_raises w stdin catalog e Hs). cbn [trace fst].
    eapply Forall_impl; [exact Hsel|]. cbn beta. auto.
Qed.

(** * The further properties on the sample world *)

Lemma select_loop_run_witness :
  select_loop sample_catalog initial_vars ["xx"; ""; "fr"; "Hello"] =
    ([ EvInput "" (Some "xx"); EvPrint "xx is not a supported language.";
       EvInput "" (Some ""); EvPrint " is not a supported language.";
       EvInput "" (Some "fr") ],
     Ok ({| targetLanguage := "fr"; supportedLanguage := true; inputText := "" |},
         ["Hello"])).
Proof.
  apply (select_loop_run sample_catalog initial_vars ["xx"; ""] "fr" ["Hello"]).
  - reflexivity.
  - repeat constructor.
  - vm_compute. eauto.
Defined.

Lemma no_supported_code_ends_in_eof_witness :
  main sample_world ["de"; "es"] =
    [ EvClient (Some "TRANSLATOR_KEY") (Some "TRANSLATOR_REGION");
      EvLanguages "translation";
      EvPrint "2 languages supported.";
      EvPrint pointer_line;
      EvPrint instruction_line;
      EvInput "" (Some "de"); EvPrint "de is not a supported language.";
      EvInput "" (Some "es"); EvPrint "es is not a supported language.";
      EvInput "" None; EvPrint "EOF when reading a line" ].
Proof.
  apply (no_supported_code_ends_in_eof sample_world ["de"; "es"] sample_catalog).
  - reflexivity.
  - reflexivity.
  - repeat constructor.
Defined.

Lemma sentinel_is_last_read_witness :
  trace (translation_loop sample_world fr_vars 0 ["Quit"; "Hello"])
    = trace (translation_loop sample_world fr_vars 0 ["Quit"])
  /\ lines_read (trace (translation_loop sample_world fr_vars 0 ["Quit"; "Hello"]))
     = ["Quit"]
  /\ (forall v' calls' rest',
        result (translation_loop sample_world fr_vars 0 ["Quit"; "Hello"])
          = Ok (v', calls', rest') ->
        rest' = ["Hello"]).
Proof.
  apply (sentinel_is_last_read sample_world fr_vars 0 "Quit" ["Hello"]).
  - discriminate.
  - reflexivity.
Defined.

Lemma empty_response_continues_witness :
  translation_loop sample_world fr_vars 0 ["Hi"; "quit"] =
    (EvInput text_prompt (Some "Hi")
       :: EvTranslate [ {| item_text := "Hi" |} ] ["fr"]
       :: trace (translation_loop sample_world (set_inputText fr_vars "Hi") 1 ["quit"]),
     result (translation_loop sample_world (set_inputText fr_vars "Hi") 1 ["quit"])).
Proof.
  apply (empty_response_continues sample_world fr_vars 0 "Hi" ["quit"]).
  - discriminate.
  - discriminate.
  - reflexivity.
Defined.

Lemma session_returns_only_by_sentinel_witness :
  lower "QUIT" = "quit"
  /\ exists catalog,
       get_supported_languages sample_world "translation" = Ok catalog
       /\ is_Some (catalog !! "fr").
Proof.
  apply (session_returns_only_by_sentinel sample_world ["fr"; "Hello"; "QUIT"; "more"]
           {| targetLanguage := "fr"; supportedLanguage := true; inputText := "QUIT" |}
           2 ["more"]).
  vm_compute. reflexivity.
Defined.

Lemma startup_failure_reads_nothing_witness :
  let w := {| getenv := fun _ => None;
              TextTranslationClient := fun _ _ => Raise (SdkError "key must be a string.");
              get_supported_languages := get_supported_languages sample_world;
              translate := sample_translate |} in
  printed (main w ["fr"; "Hello"]) = ["key must be a string."]
  /\ lines_read (main w ["fr"; "Hello"]) = []
  /\ translate_calls (main w ["fr"; "Hello"]) = [].
Proof.
  intros w.
  apply (startup_failure_reads_nothing w ["fr"; "Hello"]
           (SdkError "key must be a string.")).
  left. reflexivity.
Defined.

Lemma only_first_item_matters_witness :
  translation_loop sample_world fr_vars 0 ["Hello"; "Hi"; "quit"]
  = translation_loop doubling_world fr_vars 0 ["Hello"; "Hi"; "quit"].
Proof.
  apply (only_first_item_matters sample_world doubling_world).
  intros n body to_language. simpl.
  destruct (sample_translate n body to_language) as [[|translation others]|e];
    reflexivity.
Defined.

Lemma session_prints_only_witness :
  Forall (fun l =>
            In l (banner_lines 2)
            \/ (exists c, In c ["xx"; "fr"; "Hello"; "quit"]
                          /\ sample_catalog !! c = None /\ l = rejection c)
            \/ (exists a src tgt txt,
                   In a ["xx"; "fr"; "Hello"; "quit"] /\ l = result_line a src tgt txt))
         (printed (trace (session sample_world ["xx"; "fr"; "Hello"; "quit"]))).
Proof.
  apply (session_prints_only sample_world ["xx"; "fr"; "Hello"; "quit"] sample_catalog);
    reflexivity.
Defined.
